(** * django_improvements.py: module-level name binding, model declarations
      and the data-migration functions

    The source file is a flat sequence of tutorial snippets.  Two layers are
    embedded here:

    - the module-level statements (imports, class statements, function
      definitions, expression statements) as a small abstract syntax with an
      evaluator that follows Python's name resolution, so that what each
      snippet binds and reads can be computed;
    - the bodies of the functions that touch rows ([create_user_profile],
      [do_something], [copy_data], [EmployeeManager.get_queryset]) as state
      transformers over tables. *)

From stdpp Require Import base option list strings gmap fin_maps.

Local Open Scope string_scope.
Set Warnings "-register-all".

(** ** Errors and results *)

Inductive pyerror :=
| NameError (x : string)
| SyntaxError
| FieldError (f : string)
| IntegrityError.

Inductive result (A : Type) :=
| Ok (a : A)
| Err (e : pyerror).
Arguments Ok {A} a.
Arguments Err {A} e.

Definition rbind {A B} (m : result A) (k : A → result B) : result B :=
  match m with
  | Ok a => k a
  | Err e => Err e
  end.

Notation "'let*' x ':=' m 'in' k" := (rbind m (λ x, k))
  (at level 10, x binder, m at level 100, k at level 200,
   format "'[' 'let*'  x  :=  m  'in'  '/' k ']'").

Definition is_ok {A} (m : result A) : bool :=
  match m with Ok _ => true | Err _ => false end.

(** ** Syntax of the module-level statements *)

Module Py.

Inductive lit :=
| LStr (s : string)
| LInt (n : Z)
| LBool (b : bool)
| LFloat (digits : string).

Inductive expr :=
| EName (x : string)
| ELit (l : lit)
| EAttr (e : expr) (a : string)
| ECall (f : expr) (args : list expr) (kwargs : list (string * expr))
| EBin (op : string) (l r : expr)
| EList (es : list expr)
| ETuple (es : list expr).

(** A function body is not run when the [def] statement is executed; what
    matters at module level is whether there is a body at all (a [def]
    followed only by a comment does not parse) and which module-level names
    the body will read when called. *)
Inductive stmt :=
| SImport (module : string) (names : list string)
| SAssign (x : string) (e : expr)
| SExpr (e : expr)
| SClass (name : string) (bases : list expr) (body : list stmt)
| SDef (decorators : list expr) (name : string) (params : list string)
       (body_globals : option (list string))
| SInvalid (text : string).

Inductive value :=
| VImport (module name : string)
| VLit (l : lit)
| VAttr (v : value) (a : string)
| VCall (f : value) (args : list value) (kwargs : list (string * value))
| VBin (op : string) (l r : value)
| VList (vs : list value)
| VTuple (vs : list value)
| VClass (name : string) (bases : list value) (ns : list (string * value))
| VFunc (name : string) (params : list string).

(** Module globals are a dict; a class namespace keeps definition order. *)
Abbreviation env := (gmap string value).
Abbreviation namespace := (list (string * value)).

Fixpoint assoc (ns : namespace) (x : string) : option value :=
  match ns with
  | [] => None
  | (y, v) :: ns => if decide (x = y) then Some v else assoc ns x
  end.

(** Name lookup as LOAD_NAME does it: the local namespace, then the module
    globals.  [loc] holds the most recent binding first. *)
Definition lookup_name (g : env) (loc : namespace) (x : string) : result value :=
  match assoc loc x with
  | Some v => Ok v
  | None =>
      match g !! x with
      | Some v => Ok v
      | None => Err (NameError x)
      end
  end.

(** Evaluation of an expression.  Attribute access, calls and operators on
    framework objects are kept symbolic: the only error tracked is an unbound
    name.  [Err] therefore means that the code raises; [Ok] means that no name
    lookup fails, which is all the code can be said to need on the values the
    module itself binds. *)
Fixpoint eval (g : env) (loc : namespace) (e : expr) : result value :=
  match e with
  | EName x => lookup_name g loc x
  | ELit l => Ok (VLit l)
  | EAttr e a => let* v := eval g loc e in Ok (VAttr v a)
  | ECall f args kwargs =>
      let* fv := eval g loc f in
      let* avs := (fix go (es : list expr) : result (list value) :=
               match es with
               | [] => Ok []
               | e :: es => let* v := eval g loc e in let* vs := go es in Ok (v :: vs)
               end) args in
      let* kvs := (fix go (es : list (string * expr)) : result (list (string * value)) :=
               match es with
               | [] => Ok []
               | (k, e) :: es => let* v := eval g loc e in let* vs := go es in Ok ((k, v) :: vs)
               end) kwargs in
      Ok (VCall fv avs kvs)
  | EBin op l r => let* lv := eval g loc l in let* rv := eval g loc r in Ok (VBin op lv rv)
  | EList es =>
      let* vs := (fix go (es : list expr) : result (list value) :=
              match es with
              | [] => Ok []
              | e :: es => let* v := eval g loc e in let* vs := go es in Ok (v :: vs)
              end) es in
      Ok (VList vs)
  | ETuple es =>
      let* vs := (fix go (es : list expr) : result (list value) :=
              match es with
              | [] => Ok []
              | e :: es => let* v := eval g loc e in let* vs := go es in Ok (v :: vs)
              end) es in
      Ok (VTuple vs)
  end.

Definition eval_list (g : env) (loc : namespace) : list expr → result (list value) :=
  fix go es :=
    match es with
    | [] => Ok []
    | e :: es => let* v := eval g loc e in let* vs := go es in Ok (v :: vs)
    end.

(** Decorators are applied innermost (last written) first. *)
Fixpoint decorate (ds : list value) (f : value) : value :=
  match ds with
  | [] => f
  | d :: ds => VCall d [decorate ds f] []
  end.

Definition bind_imports (module : string) (names : list string) : namespace :=
  (λ x, (x, VImport module x)) <$> reverse names.

Definition globals_of (top : bool) (g : env) (loc : namespace) : env :=
  if top then list_to_map loc ∪ g else g.

(** Execution of one statement.  [loc] is the namespace being filled (the
    module's new bindings when [top] is true, a class namespace otherwise);
    the result is the namespace extended with what the statement binds.  A
    class body sees its own namespace and the module globals, never the
    namespace of an enclosing class. *)
Fixpoint exec (top : bool) (g : env) (loc : namespace) (s : stmt) : result namespace :=
  match s with
  | SImport m names => Ok ((bind_imports m names ++ loc)%list)
  | SAssign x e => let* v := eval g loc e in Ok ((x, v) :: loc)
  | SExpr e => let* _ := eval g loc e in Ok loc
  | SClass name bases body =>
      let* bvs := eval_list g loc bases in
      let* ns := (fix go (ns : namespace) (ss : list stmt) : result namespace :=
              match ss with
              | [] => Ok ns
              | s :: ss => let* ns' := exec false (globals_of top g loc) ns s in go ns' ss
              end) [] body in
      Ok ((name, VClass name bvs (reverse ns)) :: loc)
  | SDef ds name params body =>
      let* dvs := eval_list g loc ds in
      Ok ((name, decorate dvs (VFunc name params)) :: loc)
  | SInvalid _ => Err SyntaxError
  end.

Definition exec_list (top : bool) (g : env) : namespace → list stmt → result namespace :=
  fix go loc ss :=
    match ss with
    | [] => Ok loc
    | s :: ss => let* loc' := exec top g loc s in go loc' ss
    end.

(** Compilation comes before execution: a statement that is not Python, or
    a [def] without a body, rejects the whole unit. *)
Fixpoint parses (s : stmt) : bool :=
  match s with
  | SClass _ _ body =>
      (fix go (ss : list stmt) : bool :=
         match ss with
         | [] => true
         | s :: ss => parses s && go ss
         end) body
  | SDef _ _ _ None => false
  | SInvalid _ => false
  | _ => true
  end.

Definition parses_all (ss : list stmt) : bool := forallb parses ss.

(** Evaluating a snippet in module globals [g]: the bindings it adds. *)
Definition run_delta (ss : list stmt) (g : env) : result namespace :=
  if parses_all ss then exec_list true g [] ss else Err SyntaxError.

Definition run_snippet (ss : list stmt) (g : env) : result env :=
  let* d := run_delta ss g in Ok (list_to_map d ∪ g).

Fixpoint run (sss : list (list stmt)) (g : env) : result env :=
  match sss with
  | [] => Ok g
  | ss :: sss => let* g' := run_snippet ss g in run sss g'
  end.

Definition final_binding (imports : env) (sss : list (list stmt)) (x : string)
  : option value :=
  match run sss imports with
  | Ok g => g !! x
  | Err _ => None
  end.

End Py.

(** ** The module, snippet by snippet *)

Module Source.
Import Py.

Definition models_ (a : string) : expr := EAttr (EName "models") a.
Definition migrations_ (a : string) : expr := EAttr (EName "migrations") a.
Definition str (s : string) : expr := ELit (LStr s).
Definition int (n : Z) : expr := ELit (LInt n).
Definition true_ : expr := ELit (LBool true).

(** Lines 1-6. *)
Definition header : list stmt :=
  [ SImport "django.db" ["models"];
    SImport "django.db.models" ["F"; "Q"; "Count"; "Case"; "When"];
    SImport "django.db.models.signals" ["post_save"];
    SImport "django.dispatch" ["receiver"];
    SImport "django.core.exceptions" ["ValidationError"];
    SImport "django.contrib.auth.models" ["User"] ].

(** 1. Model mixins, lines 11-19. *)
Definition model_mixins : list stmt :=
  [ SClass "TimestampMixin" [models_ "Model"]
      [ SAssign "created_at"
          (ECall (models_ "DateTimeField") [] [("auto_now_add", true_)]);
        SAssign "updated_at"
          (ECall (models_ "DateTimeField") [] [("auto_now", true_)]);
        SClass "Meta" [] [SAssign "abstract" true_] ];
    SClass "Author" [EName "TimestampMixin"]
      [ SAssign "name" (ECall (models_ "CharField") [] [("max_length", int 100)]) ] ].

(** 2. Model signals, lines 24-31. *)
Definition model_signals : list stmt :=
  [ SClass "UserProfile" [models_ "Model"]
      [ SAssign "user"
          (ECall (models_ "OneToOneField") [EName "User"]
             [("on_delete", models_ "CASCADE")]);
        SAssign "bio" (ECall (models_ "TextField") [] []) ];
    SDef [ECall (EName "receiver") [EName "post_save"] [("sender", EName "User")]]
      "create_user_profile" ["sender"; "instance"; "created"; "**kwargs"]
      (Some ["UserProfile"]) ].

(** 3. Model managers, lines 36-43. *)
Definition model_managers : list stmt :=
  [ SClass "ActiveProductManager" [models_ "Manager"]
      [ SDef [] "active" ["self"] (Some []) ];
    SClass "Product" [models_ "Model"]
      [ SAssign "name" (ECall (models_ "CharField") [] [("max_length", int 100)]);
        SAssign "is_active" (ECall (models_ "BooleanField") [] [("default", true_)]);
        SAssign "objects" (ECall (EName "ActiveProductManager") [] []) ] ].

(** 4. Conditional expressions, lines 48-58. *)
Definition conditional_expressions : list stmt :=
  [ SClass "Order" [models_ "Model"]
      [ SAssign "user"
          (ECall (models_ "ForeignKey") [EName "User"]
             [("on_delete", models_ "CASCADE")]);
        SAssign "total"
          (ECall (models_ "DecimalField") []
             [("max_digits", int 10); ("decimal_places", int 2)]) ];
    SExpr
      (ECall (EAttr (EAttr (EName "Order") "objects") "annotate") []
         [("discount",
           ECall (EName "Case")
             [ECall (EName "When") []
                [("total__gt", int 100);
                 ("then", EBin "*" (ECall (EName "F") [str "total"] [])
                                   (ELit (LFloat "0.1")))]]
             [("default", int 0);
              ("output_field", ECall (models_ "DecimalField") [] [])])]) ].

(** 5. Query expressions, lines 63-67. *)
Definition query_expressions : list stmt :=
  [ SAssign "books"
      (ECall
         (EAttr
            (ECall (EAttr (EAttr (EName "Book") "objects") "annotate") []
               [("num_authors", ECall (EName "Count") [str "authors"] [])])
            "filter")
         [EBin "|"
            (ECall (EName "Q") [] [("num_authors__gt", int 1)])
            (ECall (EName "Q") [] [("title__icontains", str "Django")])]
         []) ].

(** 6. Migrations with RunPython, lines 72-88. *)
Definition runpython_migration : list stmt :=
  [ SImport "django.db" ["migrations"];
    SDef [] "do_something" ["apps"; "schema_editor"] (Some []);
    SClass "Migration" [migrations_ "Migration"]
      [ SAssign "dependencies" (EList [ETuple [str "myapp"; str "0001_initial"]]);
        SAssign "operations"
          (EList [ECall (migrations_ "RunPython") [EName "do_something"] []]) ] ].

(** 7. Proxy models, lines 92-105 (with the two imports that precede it). *)
Definition proxy_models : list stmt :=
  [ SImport "django.db" ["models"];
    SImport "django.contrib.auth.models" ["User"];
    SClass "EmployeeManager" [models_ "Manager"]
      [ SDef [] "get_queryset" ["self"] (Some []) ];
    SClass "Employee" [EName "User"]
      [ SClass "Meta" [] [SAssign "proxy" true_];
        SAssign "objects" (ECall (EName "EmployeeManager") [] []) ] ].

(** 8. Multi-table inheritance, lines 111-116. *)
Definition multi_table_inheritance : list stmt :=
  [ SClass "Person" [models_ "Model"]
      [ SAssign "first_name" (ECall (models_ "CharField") [] [("max_length", int 30)]);
        SAssign "last_name" (ECall (models_ "CharField") [] [("max_length", int 30)]) ];
    SClass "Employee" [EName "Person"]
      [ SAssign "employee_id" (ECall (models_ "CharField") [] [("max_length", int 10)]) ] ].

(** 9. Abstract base classes, lines 122-130. *)
Definition abstract_base_classes : list stmt :=
  [ SClass "BaseModel" [models_ "Model"]
      [ SAssign "created_at"
          (ECall (models_ "DateTimeField") [] [("auto_now_add", true_)]);
        SAssign "updated_at"
          (ECall (models_ "DateTimeField") [] [("auto_now", true_)]);
        SClass "Meta" [] [SAssign "abstract" true_] ];
    SClass "Customer" [EName "BaseModel"]
      [ SAssign "name" (ECall (models_ "CharField") [] [("max_length", int 100)]) ] ].

(** 10. Database index optimization, lines 136-144. *)
Definition index_optimization : list stmt :=
  [ SClass "Product" [models_ "Model"]
      [ SAssign "name"
          (ECall (models_ "CharField") []
             [("max_length", int 100); ("db_index", true_)]);
        SAssign "price"
          (ECall (models_ "DecimalField") []
             [("max_digits", int 5); ("decimal_places", int 2)]);
        SAssign "description" (ECall (models_ "TextField") [] []);
        SClass "Meta" []
          [ SAssign "indexes"
              (EList [ECall (models_ "Index") []
                        [("fields", EList [str "name"]); ("name", str "name_idx")]]) ] ] ].

(** Squashing migrations, line 153: a shell command line. *)
Definition squashing : list stmt :=
  [ SInvalid "python manage.py squashmigrations <app_name> <start_migration> <end_migration>" ].

(** Data migrations, lines 161-175. *)
Definition data_migration : list stmt :=
  [ SImport "django.db" ["migrations"; "models"];
    SDef [] "copy_data" ["apps"; "schema_editor"] (Some []);
    SClass "Migration" [migrations_ "Migration"]
      [ SAssign "dependencies"
          (EList [ETuple [str "myapp"; str "0002_auto_create_new_model"]]);
        SAssign "operations"
          (EList [ECall (migrations_ "RunPython") [EName "copy_data"] []]) ] ].

(** Reversible RunPython operations, lines 180-194.  Both functions have a
    comment where the body should be. *)
Definition reversible_runpython : list stmt :=
  [ SImport "django.db" ["migrations"];
    SDef [] "do_something" ["apps"; "schema_editor"] None;
    SDef [] "undo_something" ["apps"; "schema_editor"] None;
    SClass "Migration" [migrations_ "Migration"]
      [ SAssign "dependencies" (EList [ETuple [str "myapp"; str "0001_initial"]]);
        SAssign "operations"
          (EList [ECall (migrations_ "RunPython") [EName "do_something"]
                    [("reverse_code", EName "undo_something")]]) ] ].

(** Custom migration operations, lines 201-221. *)
Definition custom_operation : list stmt :=
  [ SImport "django.db" ["migrations"];
    SClass "CustomOperation" [migrations_ "Operation"]
      [ SAssign "reversible" true_;
        SDef [] "state_forwards" ["self"; "app_label"; "state"] None;
        SDef [] "database_forwards"
          ["self"; "app_label"; "schema_editor"; "from_state"; "to_state"] None;
        SDef [] "database_backwards"
          ["self"; "app_label"; "schema_editor"; "from_state"; "to_state"] None ];
    SClass "Migration" [migrations_ "Migration"]
      [ SAssign "dependencies" (EList [ETuple [str "myapp"; str "0001_initial"]]);
        SAssign "operations" (EList [ECall (EName "CustomOperation") [] []]) ] ].

(** Dependency management, lines 228-235. *)
Definition dependency_management : list stmt :=
  [ SClass "Migration" [migrations_ "Migration"]
      [ SAssign "dependencies"
          (EList [ETuple [str "myapp"; str "0001_initial"];
                  ETuple [str "another_app"; str "0002_add_field"]]);
        SAssign "operations" (EList []) ] ].

(** Handling merge conflicts, lines 242-243: two lines of prose. *)
Definition merge_conflicts : list stmt :=
  [ SInvalid "Identify the conflicting migrations.";
    SInvalid "Modify the dependencies of the conflicting migration to create a linear migration history." ].

(** All snippets in source order. *)
Definition snippets : list (list stmt) :=
  [ model_mixins; model_signals; model_managers; conditional_expressions;
    query_expressions; runpython_migration; proxy_models;
    multi_table_inheritance; abstract_base_classes; index_optimization;
    squashing; data_migration; reversible_runpython; custom_operation;
    dependency_management; merge_conflicts ].

(** Every [import] statement of the module: the header and the ones that
    open later snippets. *)
Definition is_import (s : stmt) : bool :=
  match s with SImport _ _ => true | _ => false end.

Definition module_imports : list stmt :=
  header ++ filter (λ s, is_import s = true) (concat snippets).

Definition bind_all (ss : list stmt) : env :=
  match exec_list true ∅ [] ss with
  | Ok d => list_to_map d
  | Err _ => ∅
  end.

(** Globals after the header alone, and after every import of the module. *)
Definition header_env : env := bind_all header.
Definition imports_env : env := bind_all module_imports.

(** What a snippet binds to [x] when it is evaluated on its own, right after
    the header. *)
Definition own_binding (ss : list stmt) (x : string) : option value :=
  match run_delta ss header_env with
  | Ok d => assoc d x
  | Err _ => None
  end.

(** The snippets that evaluate on their own after the header. *)
Definition loadable : list (list stmt) :=
  filter (λ ss, is_ok (run_delta ss header_env) = true) snippets.

(** The class names that more than one loadable snippet declares. *)
Definition rebound : list string := ["Product"; "Employee"; "Migration"].

(** One step of rebinding: a snippet that binds [x] replaces what [x] was
    bound to. *)
Definition pick_binding (x : string) (acc : option value) (ss : list stmt)
  : option value :=
  match own_binding ss x with
  | Some v => Some v
  | None => acc
  end.

(** The binding of [x] given by the last snippet of [sel] that binds it, or
    the header's when none does. *)
Definition last_binding (sel : list (list stmt)) (x : string) : option value :=
  fold_left (pick_binding x) sel (header_env !! x).

(** The error, if any, of evaluating a snippet on its own with every import
    of the module in effect. *)
Definition error_of (ss : list stmt) : option pyerror :=
  match run_snippet ss imports_env with
  | Ok _ => None
  | Err e => Some e
  end.

(** Independence as the final binding of every name: any sub-collection of
    the snippets, evaluated in any two orders, ends with the same binding. *)
Definition order_independent (imports : env) (sss : list (list stmt)) : Prop :=
  ∀ sel1 sel2 x,
    sel1 ⊆+ sss → sel2 ≡ₚ sel1 →
    final_binding imports sel1 x = final_binding imports sel2 x.

End Source.

(** ** What the ORM makes of a class statement *)

Module Orm.
Import Py.

Definition field_classes : list string :=
  ["DateTimeField"; "CharField"; "TextField"; "BooleanField"; "DecimalField";
   "OneToOneField"; "ForeignKey"].

(** A class attribute is a stored field when it is built by one of the
    field constructors of [django.db.models]; managers, methods and the
    nested [Meta] are not. *)
Definition is_field (v : value) : bool :=
  match v with
  | VCall (VAttr (VImport m x) cls) _ _ =>
      bool_decide (m = "django.db") && bool_decide (x = "models")
      && bool_decide (cls ∈ field_classes)
  | _ => false
  end.

Definition own_fields (v : value) : list string :=
  match v with
  | VClass _ _ ns => (filter (λ b, is_field b.2 = true) ns).*1
  | _ => []
  end.

(** An option of the class's own nested [Meta]; [abstract] and [proxy] are
    never taken over from a base class. *)
Definition meta_flag (flag : string) (v : value) : bool :=
  match v with
  | VClass _ _ ns =>
      match assoc ns "Meta" with
      | Some (VClass _ _ meta) =>
          match assoc meta flag with
          | Some (VLit (LBool b)) => b
          | _ => false
          end
      | _ => false
      end
  | _ => false
  end.

Definition is_abstract : value → bool := meta_flag "abstract".
Definition is_proxy : value → bool := meta_flag "proxy".

(** Modelled from the spec: the framework's model metaclass is not part of
    the repository.  The glossary says that a mixin is an abstract base
    declaration contributing fields to concrete models without its own
    storage table, and that a proxy model reuses an existing table. *)
Definition has_table (v : value) : bool :=
  negb (is_abstract v) && negb (is_proxy v).

(** Modelled from the spec: the fields an instance carries are those of its
    bases (for the bases declared in this module) followed by its own. *)
Fixpoint instance_fields (v : value) : list string :=
  match v with
  | VClass _ bases _ =>
      ((fix go (bs : list value) : list string :=
          match bs with
          | [] => []
          | b :: bs => instance_fields b ++ go bs
          end) bases ++ own_fields v)%list
  | _ => []
  end.

Definition bases_of (v : value) : list value :=
  match v with
  | VClass _ bases _ => bases
  | _ => []
  end.

(** The class a snippet binds to [x] when evaluated after the header. *)
Definition class_of (ss : list stmt) (x : string) : option value :=
  Source.own_binding ss x.

End Orm.

(** ** Tables and the functions that touch rows *)

Module Db.

Abbreviation table A := (gmap Z A).

(** The value an auto-incremented primary key takes on the next insert:
    above every key in use. *)
Definition next_pk {A} (t : table A) : Z :=
  map_fold (λ k _ acc, Z.max (k + 1) acc) 1%Z t.

Inductive fieldval :=
| FBool (b : bool)
| FStr (s : string)
| FInt (n : Z)
| FNull.

#[global] Instance fieldval_eq_dec : EqDecision fieldval.
Proof. solve_decision. Defined.

(** A row with a [name] column; the other columns are kept together. *)
Record row (Rest : Type) := Row { name : string; rest : Rest }.
Arguments Row {Rest} name rest.
Arguments name {Rest} r.
Arguments rest {Rest} r.

(** *** 2. Model signals: [UserProfile] and the [post_save] receiver *)

Record profile := Profile { user_id : Z; bio : string }.

Record state (UserRow : Type) := State {
  users : table UserRow;
  profiles : table profile
}.
Arguments State {UserRow} users profiles.
Arguments users {UserRow} s.
Arguments profiles {UserRow} s.

(** [UserProfile.objects.create(user=instance)]: [user] is a one-to-one
    reference (line 25), so a second profile for the same user is refused;
    [bio] is a text column without a default and is stored empty. *)
Definition UserProfile_create {U} (user_pk : Z) (st : state U) : result (state U) :=
  if decide (map_Exists (λ _ p, user_id p = user_pk) (profiles st))
  then Err IntegrityError
  else Ok (State (users st)
                 (<[next_pk (profiles st) := Profile user_pk ""]> (profiles st))).

(** Lines 28-31. *)
Definition create_user_profile {U} (instance : Z * U) (created : bool)
    (st : state U) : result (state U) :=
  if created then UserProfile_create instance.1 st else Ok st.

Definition receiver_fn U := (Z * U → bool → state U → result (state U))%type.

Fixpoint send_post_save {U} (receivers : list (receiver_fn U)) (instance : Z * U)
    (created : bool) (st : state U) : result (state U) :=
  match receivers with
  | [] => Ok st
  | r :: rs => let* st' := r instance created st in send_post_save rs instance created st'
  end.

(** Modelled from the spec: the framework's [save] is not part of the
    repository.  It writes the row, then fires the post-save signal with
    [created] telling whether the row is new; the receivers connected for
    [User] are passed in. *)
Definition User_save {U} (receivers : list (receiver_fn U)) (instance : Z * U)
    (st : state U) : result (state U) :=
  let created := bool_decide (users st !! instance.1 = None) in
  send_post_save receivers instance created
    (State (<[instance.1 := instance.2]> (users st)) (profiles st)).

(** A save that changes nothing but the saved row: the profiles are as they
    were, and so is every other user. *)
Definition save_touches_only_saved_row {U} (receivers : list (receiver_fn U)) : Prop :=
  ∀ (st st' : state U) (instance : Z * U),
    User_save receivers instance st = Ok st' →
    profiles st' = profiles st
    ∧ ∀ k, k ≠ instance.1 → users st' !! k = users st !! k.

(** Every profile points at a stored user. *)
Definition fk_ok {U} (st : state U) : Prop :=
  map_Forall (λ _ p, is_Some (users st !! user_id p)) (profiles st).

(** *** 7. Proxy models: [EmployeeManager.get_queryset] *)

(** [filter(f=v)] on the rows of a model whose field accessor is [field]:
    a keyword that names no field of the model is refused. *)
Definition filter_eq {R} (field : string → option (R → fieldval))
    (f : string) (v : fieldval) (rows : table R) : result (table R) :=
  match field f with
  | None => Err (FieldError f)
  | Some get => Ok (filter (λ kr, get kr.2 = v) rows)
  end.

(** Lines 98-100.  [super().get_queryset()] of a manager attached to the
    proxy is every row of the table the proxy shares with [User]. *)
Definition get_queryset {R} (field : string → option (R → fieldval))
    (user_rows : table R) : result (table R) :=
  filter_eq field "is_employee" (FBool true) user_rows.

(** The columns of [django.contrib.auth.models.User], the model imported at
    lines 6 and 93 and given as base of the proxy at line 102.  The class
    lives in the framework, not in the repository; these are the columns of
    its stock user model. *)
Definition auth_user_columns : list string :=
  ["id"; "password"; "last_login"; "is_superuser"; "username"; "first_name";
   "last_name"; "email"; "is_staff"; "is_active"; "date_joined"].

(** A stored user: one value per column. *)
Abbreviation auth_user := (gmap string fieldval).

Definition auth_user_field (f : string) : option (auth_user → fieldval) :=
  if decide (f ∈ auth_user_columns)
  then Some (λ u, default FNull (u !! f))
  else None.

(** *** 6. Migrations with RunPython: [do_something] (lines 74-78) *)

(** [product.save()] of an instance read from the table writes its row
    back under the same key. *)
Definition save {A} (pk : Z) (r : A) (t : table A) : table A := <[pk := r]> t.

(** [product.name = product.name.upper()]: the other columns of the
    instance stay as they were read. *)
Definition renamed {Rest} (upper : string → string) (r : row Rest) : row Rest :=
  Row (upper (name r)) (rest r).

(** The query set is read once; each row read is renamed and saved. *)
Definition do_something {Rest} (upper : string → string)
    (products : table (row Rest)) : table (row Rest) :=
  fold_left (λ t kp, save kp.1 (renamed upper kp.2) t)
            (map_to_list products) products.

(** *** Data migrations: [copy_data] (lines 163-167) *)

Record tables (RO RN : Type) := Tables {
  old_models : table (row RO);
  new_models : table (row RN)
}.
Arguments Tables {RO RN} old_models new_models.
Arguments old_models {RO RN} t.
Arguments new_models {RO RN} t.

(** [NewModel.objects.create(name=n)]: one new row under a fresh key, its
    other columns at their defaults. *)
Definition NewModel_create {RO RN} (defaults : RN) (n : string)
    (db : tables RO RN) : tables RO RN :=
  Tables (old_models db)
         (<[next_pk (new_models db) := Row n defaults]> (new_models db)).

Definition copy_data {RO RN} (defaults : RN) (db : tables RO RN) : tables RO RN :=
  fold_left (λ db' ko, NewModel_create defaults (name ko.2) db')
            (map_to_list (old_models db)) db.

(** *** 3. Model managers: [ActiveProductManager.active] (lines 36-38) *)

(** The columns [Product] declares in snippet 3 (lines 41-42); the [rest] of
    a product row is its [is_active] flag. *)
Definition product_field (f : string) : option (row bool → fieldval) :=
  if decide (f = "name") then Some (λ r, FStr (name r))
  else if decide (f = "is_active") then Some (λ r, FBool (rest r))
  else None.

(** [self.filter(is_active=True)] on the manager of [Product]. *)
Definition active (products : table (row bool)) : result (table (row bool)) :=
  filter_eq product_field "is_active" (FBool true) products.

(** *** States of users and profiles *)





(** An upper-casing function on byte strings, used to instantiate [upper]. *)
Definition upper_ascii (c : Ascii.ascii) : Ascii.ascii :=
  let n := Ascii.nat_of_ascii c in
  if (97 <=? n)%nat && (n <=? 122)%nat then Ascii.ascii_of_nat (n - 32) else c.

Fixpoint upper_bytes (s : string) : string :=
  match s with
  | EmptyString => EmptyString
  | String c s => String (upper_ascii c) (upper_bytes s)
  end.

End Db.

(** ** Structural induction and equality test for the nested syntax *)

Module Induction.
Import Py.

Definition eval_kwargs (g : env) (loc : namespace)
  : list (string * expr) → result (list (string * value)) :=
  fix go es :=
    match es with
    | [] => Ok []
    | (k, e) :: es => let* v := eval g loc e in let* vs := go es in Ok ((k, v) :: vs)
    end.

Definition exec_body (g : env) : namespace → list stmt → result namespace :=
  fix go ns ss :=
    match ss with
    | [] => Ok ns
    | s :: ss => let* ns' := exec false g ns s in go ns' ss
    end.

Section expr_ind.
Variable P : expr → Prop.
Hypothesis HName : ∀ x, P (EName x).
Hypothesis HLit : ∀ l, P (ELit l).
Hypothesis HAttr : ∀ e a, P e → P (EAttr e a).
Hypothesis HCall : ∀ f args kwargs,
  P f → Forall P args → Forall (λ ke, P ke.2) kwargs → P (ECall f args kwargs).
Hypothesis HBin : ∀ op l r, P l → P r → P (EBin op l r).
Hypothesis HList : ∀ es, Forall P es → P (EList es).
Hypothesis HTuple : ∀ es, Forall P es → P (ETuple es).

Fixpoint expr_ind' (e : expr) : P e :=
  let all :=
    fix go (es : list expr) : Forall P es :=
      match es with
      | [] => Forall_nil_2 P
      | e :: es => Forall_cons_2 P e es (expr_ind' e) (go es)
      end in
  match e with
  | EName x => HName x
  | ELit l => HLit l
  | EAttr e a => HAttr e a (expr_ind' e)
  | ECall f args kwargs =>
      HCall f args kwargs (expr_ind' f) (all args)
        ((fix go (es : list (string * expr)) : Forall (λ ke, P ke.2) es :=
            match es with
            | [] => Forall_nil_2 _
            | (k, e) :: es => Forall_cons_2 (λ ke, P ke.2) (k, e) es (expr_ind' e) (go es)
            end) kwargs)
  | EBin op l r => HBin op l r (expr_ind' l) (expr_ind' r)
  | EList es => HList es (all es)
  | ETuple es => HTuple es (all es)
  end.
End expr_ind.

Section stmt_ind.
Variable P : stmt → Prop.
Hypothesis HImport : ∀ m names, P (SImport m names).
Hypothesis HAssign : ∀ x e, P (SAssign x e).
Hypothesis HExpr : ∀ e, P (SExpr e).
Hypothesis HClass : ∀ name bases body, Forall P body → P (SClass name bases body).
Hypothesis HDef : ∀ ds name params body, P (SDef ds name params body).
Hypothesis HInvalid : ∀ text, P (SInvalid text).

Fixpoint stmt_ind' (s : stmt) : P s :=
  match s with
  | SImport m names => HImport m names
  | SAssign x e => HAssign x e
  | SExpr e => HExpr e
  | SClass name bases body =>
      HClass name bases body
        ((fix go (ss : list stmt) : Forall P ss :=
            match ss with
            | [] => Forall_nil_2 P
            | s :: ss => Forall_cons_2 P s ss (stmt_ind' s) (go ss)
            end) body)
  | SDef ds name params body => HDef ds name params body
  | SInvalid text => HInvalid text
  end.
End stmt_ind.

Section value_ind.
Variable P : value → Prop.
Hypothesis HImport : ∀ m x, P (VImport m x).
Hypothesis HLit : ∀ l, P (VLit l).
Hypothesis HAttr : ∀ v a, P v → P (VAttr v a).
Hypothesis HCall : ∀ f args kwargs,
  P f → Forall P args → Forall (λ kv, P kv.2) kwargs → P (VCall f args kwargs).
Hypothesis HBin : ∀ op l r, P l → P r → P (VBin op l r).
Hypothesis HList : ∀ vs, Forall P vs → P (VList vs).
Hypothesis HTuple : ∀ vs, Forall P vs → P (VTuple vs).
Hypothesis HClass : ∀ name bases ns,
  Forall P bases → Forall (λ kv, P kv.2) ns → P (VClass name bases ns).
Hypothesis HFunc : ∀ name params, P (VFunc name params).

Fixpoint value_ind' (v : value) : P v :=
  let all :=
    fix go (vs : list value) : Forall P vs :=
      match vs with
      | [] => Forall_nil_2 P
      | v :: vs => Forall_cons_2 P v vs (value_ind' v) (go vs)
      end in
  let all2 :=
    fix go (vs : list (string * value)) : Forall (λ kv, P kv.2) vs :=
      match vs with
      | [] => Forall_nil_2 _
      | (k, v) :: vs => Forall_cons_2 (λ kv, P kv.2) (k, v) vs (value_ind' v) (go vs)
      end in
  match v with
  | VImport m x => HImport m x
  | VLit l => HLit l
  | VAttr v a => HAttr v a (value_ind' v)
  | VCall f args kwargs => HCall f args kwargs (value_ind' f) (all args) (all2 kwargs)
  | VBin op l r => HBin op l r (value_ind' l) (value_ind' r)
  | VList vs => HList vs (all vs)
  | VTuple vs => HTuple vs (all vs)
  | VClass name bases ns => HClass name bases ns (all bases) (all2 ns)
  | VFunc name params => HFunc name params
  end.
End value_ind.

#[global] Instance lit_eq_dec : EqDecision lit.
Proof. solve_decision. Defined.

(** A computable equality test on values. *)
Fixpoint value_eqb (v w : value) : bool :=
  let all :=
    fix go (vs ws : list value) : bool :=
      match vs, ws with
      | [], [] => true
      | v :: vs, w :: ws => value_eqb v w && go vs ws
      | _, _ => false
      end in
  let all2 :=
    fix go (vs ws : list (string * value)) : bool :=
      match vs, ws with
      | [], [] => true
      | (k, v) :: vs, (k', w) :: ws => bool_decide (k = k') && value_eqb v w && go vs ws
      | _, _ => false
      end in
  match v, w with
  | VImport m x, VImport m' x' => bool_decide (m = m') && bool_decide (x = x')
  | VLit l, VLit l' => bool_decide (l = l')
  | VAttr v a, VAttr w b => value_eqb v w && bool_decide (a = b)
  | VCall f a k, VCall f' a' k' => value_eqb f f' && all a a' && all2 k k'
  | VBin op l r, VBin op' l' r' =>
      bool_decide (op = op') && value_eqb l l' && value_eqb r r'
  | VList vs, VList ws => all vs ws
  | VTuple vs, VTuple ws => all vs ws
  | VClass n bs ns, VClass n' bs' ns' => bool_decide (n = n') && all bs bs' && all2 ns ns'
  | VFunc n ps, VFunc n' ps' => bool_decide (n = n') && bool_decide (ps = ps')
  | _, _ => false
  end.

(** Every binding of [d] that also occurs in [g] has the same value there. *)
Definition agreesb (d : namespace) (g : env) : bool :=
  forallb (λ b, match g !! b.1 with
                | None => true
                | Some w => value_eqb b.2 w
                end) d.

(** Two bindings of one name in [bs] carry one value, except for the names
    in [skip]. *)
Definition consistentb (skip : list string) (bs : namespace) : bool :=
  forallb (λ b1,
    forallb (λ b2,
      negb (bool_decide (b1.1 = b2.1)) || bool_decide (b1.1 ∈ skip)
      || value_eqb b1.2 b2.2) bs) bs.

Definition delta_of (ss : list stmt) : namespace :=
  match run_delta ss Source.header_env with
  | Ok d => d
  | Err _ => []
  end.

End Induction.

Import Py Source Orm Db Induction.

(** * Properties *)

(** ** The evaluator *)

Lemma rbind_Ok {A B} (m : result A) (k : A → result B) (b : B) :
  rbind m k = Ok b ↔ ∃ a, m = Ok a ∧ k a = Ok b.
Proof.
  destruct m as [a|e]; simpl; split.
  - eauto.
  - by intros (a' & [= ->] & ?).
  - done.
  - by intros (a' & [=] & ?).
Qed.

Ltac rbind_inv :=
  repeat match goal with
  | H : rbind _ _ = Ok _ |- _ =>
      apply rbind_Ok in H; destruct H as (? & ? & H)
  | H : Ok _ = Ok _ |- _ => injection H as <-
  end.

Lemma eval_call g loc f args kwargs :
  eval g loc (ECall f args kwargs) =
  (let* fv := eval g loc f in
   let* avs := eval_list g loc args in
   let* kvs := eval_kwargs g loc kwargs in
   Ok (VCall fv avs kvs)).
Proof. reflexivity. Qed.

Lemma eval_elist g loc es :
  eval g loc (EList es) = (let* vs := eval_list g loc es in Ok (VList vs)).
Proof. reflexivity. Qed.

Lemma eval_etuple g loc es :
  eval g loc (ETuple es) = (let* vs := eval_list g loc es in Ok (VTuple vs)).
Proof. reflexivity. Qed.

Lemma exec_class top g loc name bases body :
  exec top g loc (SClass name bases body) =
  (let* bvs := eval_list g loc bases in
   let* ns := exec_body (globals_of top g loc) [] body in
   Ok ((name, VClass name bvs (reverse ns)) :: loc)).
Proof. reflexivity. Qed.

Lemma assoc_list_to_map (d : namespace) (x : string) :
  (list_to_map d : env) !! x = assoc d x.
Proof.
  induction d as [|[y v] d IH]; simpl; [done|].
  case_decide; subst.
  - by rewrite lookup_insert_eq.
  - by rewrite lookup_insert_ne.
Qed.

Lemma lookup_bound (d : namespace) (g : env) (x : string) :
  (list_to_map d ∪ g) !! x = match assoc d x with Some v => Some v | None => g !! x end.
Proof.
  rewrite lookup_union, assoc_list_to_map.
  destruct (assoc d x), (g !! x); done.
Qed.

(** Growing the globals never changes a result that was already there. *)
Lemma lookup_name_mono (g1 g2 : env) loc x v :
  g1 ⊆ g2 → lookup_name g1 loc x = Ok v → lookup_name g2 loc x = Ok v.
Proof.
  intros Hsub. unfold lookup_name. destruct (assoc loc x); [done|].
  destruct (g1 !! x) as [w|] eqn:E; [|done].
  intros [= <-]. by rewrite (lookup_weaken _ _ _ _ E Hsub).
Qed.

Lemma eval_list_mono (g1 g2 : env) loc es :
  Forall (λ e, ∀ v, eval g1 loc e = Ok v → eval g2 loc e = Ok v) es →
  ∀ vs, eval_list g1 loc es = Ok vs → eval_list g2 loc es = Ok vs.
Proof.
  induction 1 as [|e es He _ IH]; intros vs; simpl; [done|].
  intros H. rbind_inv. erewrite He by done. simpl. erewrite IH by done. done.
Qed.

Lemma eval_kwargs_mono (g1 g2 : env) loc es :
  Forall (λ ke, ∀ v, eval g1 loc ke.2 = Ok v → eval g2 loc ke.2 = Ok v) es →
  ∀ vs, eval_kwargs g1 loc es = Ok vs → eval_kwargs g2 loc es = Ok vs.
Proof.
  induction 1 as [|[k e] es He _ IH]; intros vs; simpl; [done|].
  intros H. rbind_inv. simpl in He. erewrite He by done. simpl.
  erewrite IH by done. done.
Qed.

Lemma eval_mono (g1 g2 : env) loc e v :
  g1 ⊆ g2 → eval g1 loc e = Ok v → eval g2 loc e = Ok v.
Proof.
  intros Hsub. revert v.
  induction e as [x|l|e a IH|f args kwargs IHf IHa IHk|op l r IHl IHr|es IH|es IH]
    using expr_ind'; intros v.
  - by apply lookup_name_mono.
  - done.
  - simpl. intros H. rbind_inv. by erewrite IH.
  - rewrite !eval_call. intros H. rbind_inv.
    erewrite IHf by done. simpl.
    erewrite eval_list_mono by done. simpl.
    erewrite eval_kwargs_mono by done. done.
  - simpl. intros H. rbind_inv. erewrite IHl by done. simpl. by erewrite IHr.
  - rewrite !eval_elist. intros H. rbind_inv. by erewrite eval_list_mono.
  - rewrite !eval_etuple. intros H. rbind_inv. by erewrite eval_list_mono.
Qed.

Lemma eval_exprs_mono (g1 g2 : env) loc es vs :
  g1 ⊆ g2 → eval_list g1 loc es = Ok vs → eval_list g2 loc es = Ok vs.
Proof.
  intros Hsub. apply eval_list_mono, Forall_forall. intros e _ v. by apply eval_mono.
Qed.

Lemma globals_of_mono top (g1 g2 : env) loc :
  g1 ⊆ g2 → globals_of top g1 loc ⊆ globals_of top g2 loc.
Proof. intros Hsub. destruct top; simpl; [by apply map_union_mono_l|done]. Qed.

Lemma exec_body_mono (g1 g2 : env) body :
  Forall (λ s, ∀ top g1 g2 loc loc',
            g1 ⊆ g2 → exec top g1 loc s = Ok loc' → exec top g2 loc s = Ok loc') body →
  g1 ⊆ g2 →
  ∀ ns ns', exec_body g1 ns body = Ok ns' → exec_body g2 ns body = Ok ns'.
Proof.
  intros Hall Hsub. induction Hall as [|s ss Hs _ IH]; intros ns ns'; simpl; [done|].
  intros H. rbind_inv. erewrite Hs by done. simpl. by apply IH.
Qed.

Lemma exec_mono s : ∀ top (g1 g2 : env) loc loc',
  g1 ⊆ g2 → exec top g1 loc s = Ok loc' → exec top g2 loc s = Ok loc'.
Proof.
  induction s as [m names|x e|e|name bases body IH|ds name params body|text]
    using stmt_ind'; intros top g1 g2 loc loc' Hsub.
  - done.
  - simpl. intros H. rbind_inv. by erewrite eval_mono.
  - simpl. intros H. rbind_inv. by erewrite eval_mono.
  - rewrite !exec_class. intros H. rbind_inv.
    erewrite eval_exprs_mono by done. simpl.
    erewrite exec_body_mono; [done|done|by apply globals_of_mono|done].
  - simpl. intros H. rbind_inv. by erewrite eval_exprs_mono.
  - done.
Qed.

Lemma exec_list_mono top (g1 g2 : env) ss : ∀ loc loc',
  g1 ⊆ g2 → exec_list top g1 loc ss = Ok loc' → exec_list top g2 loc ss = Ok loc'.
Proof.
  induction ss as [|s ss IH]; intros loc loc' Hsub; simpl; [done|].
  intros H. rbind_inv. erewrite exec_mono by done. simpl. by apply IH.
Qed.

Lemma run_delta_mono (g1 g2 : env) ss d :
  g1 ⊆ g2 → run_delta ss g1 = Ok d → run_delta ss g2 = Ok d.
Proof.
  unfold run_delta. intros Hsub. destruct (parses_all ss); [|done].
  by apply exec_list_mono.
Qed.

Lemma value_eqb_eq v : ∀ w, value_eqb v w = true → v = w.
Proof.
  assert (Hall : ∀ vs, Forall (λ v, ∀ w, value_eqb v w = true → v = w) vs →
    ∀ ws, (fix go (vs ws : list value) : bool :=
             match vs, ws with
             | [], [] => true
             | v :: vs, w :: ws => value_eqb v w && go vs ws
             | _, _ => false
             end) vs ws = true → vs = ws).
  { induction 1 as [|v' vs Hv _ IH]; intros [|w ws]; try done.
    intros [H1 H2]%andb_true_iff. f_equal; auto. }
  assert (Hall2 : ∀ vs, Forall (λ kv, ∀ w, value_eqb kv.2 w = true → kv.2 = w) vs →
    ∀ ws, (fix go (vs ws : list (string * value)) : bool :=
             match vs, ws with
             | [], [] => true
             | (k, v) :: vs, (k', w) :: ws =>
                 bool_decide (k = k') && value_eqb v w && go vs ws
             | _, _ => false
             end) vs ws = true → vs = ws).
  { induction 1 as [|[k v'] vs Hv _ IH]; intros [|[k' w] ws]; try done.
    intros [[H0 H1]%andb_true_iff H2]%andb_true_iff.
    apply bool_decide_eq_true in H0. simpl in Hv. f_equal; [f_equal|]; auto. }
  induction v as [m x|l|v a IH|f args kwargs IHf IHa IHk|op l r IHl IHr|vs IH|vs IH
                 |name bases ns IHb IHn|name params] using value_ind';
    intros [] Heq; try discriminate Heq; simpl in Heq;
    repeat match goal with
    | H : _ && _ = true |- _ => apply andb_true_iff in H; destruct H
    | H : bool_decide _ = true |- _ => apply bool_decide_eq_true in H
    end; subst; f_equal; auto.
Qed.

Lemma assoc_elem_of (d : namespace) x v : assoc d x = Some v → (x, v) ∈ d.
Proof.
  induction d as [|[y w] d IH]; simpl; [done|].
  case_decide; subst.
  - intros [= ->]. left.
  - intros Hd. right. auto.
Qed.

Lemma agreesb_spec (d : namespace) (g : env) x v w :
  agreesb d g = true → assoc d x = Some v → g !! x = Some w → v = w.
Proof.
  unfold agreesb. rewrite forallb_forall. intros Hall Hd Hg.
  apply assoc_elem_of, list_elem_of_In in Hd.
  specialize (Hall _ Hd). simpl in Hall. rewrite Hg in Hall.
  by apply value_eqb_eq.
Qed.

Lemma consistentb_spec skip (bs : namespace) x v w :
  consistentb skip bs = true → (x, v) ∈ bs → (x, w) ∈ bs → x ∉ skip → v = w.
Proof.
  unfold consistentb. rewrite forallb_forall. intros Hall Hv Hw Hx.
  apply list_elem_of_In in Hv, Hw.
  specialize (Hall _ Hv). rewrite forallb_forall in Hall.
  specialize (Hall _ Hw). simpl in Hall.
  apply orb_true_iff in Hall as [Hall|Hall]; [|by apply value_eqb_eq].
  apply orb_true_iff in Hall as [Hall|Hall].
  - apply negb_true_iff, bool_decide_eq_false in Hall. done.
  - apply bool_decide_eq_true in Hall. done.
Qed.

(** ** The snippets *)

Lemma loadable_eq :
  loadable =
  [ model_mixins; model_signals; model_managers; conditional_expressions;
    runpython_migration; proxy_models; multi_table_inheritance;
    abstract_base_classes; index_optimization; data_migration ].
Proof. vm_compute. reflexivity. Qed.

Lemma loadable_run ss :
  ss ∈ loadable → run_delta ss header_env = Ok (delta_of ss).
Proof.
  unfold loadable. intros [H _]%list_elem_of_filter. unfold delta_of.
  by destruct (run_delta ss header_env).
Qed.

Lemma loadable_agrees : forallb (λ ss, agreesb (delta_of ss) header_env) loadable = true.
Proof. vm_compute. reflexivity. Qed.

Lemma loadable_consistent :
  consistentb rebound (concat (delta_of <$> loadable)) = true.
Proof. vm_compute. reflexivity. Qed.

Lemma own_binding_delta ss x :
  ss ∈ loadable → own_binding ss x = assoc (delta_of ss) x.
Proof. intros H. unfold own_binding. by rewrite (loadable_run _ H). Qed.

(** A loadable snippet gives the same bindings in any globals that extend
    the header's, and leaves the header's names as they were. *)
Lemma run_snippet_loadable ss (g : env) :
  ss ∈ loadable → header_env ⊆ g →
  run_snippet ss g = Ok (list_to_map (delta_of ss) ∪ g)
  ∧ header_env ⊆ list_to_map (delta_of ss) ∪ g.
Proof.
  intros Hin Hsub. split.
  - unfold run_snippet.
    by rewrite (run_delta_mono _ _ _ _ Hsub (loadable_run _ Hin)).
  - apply map_subseteq_spec. intros x v Hx.
    rewrite lookup_bound.
    destruct (assoc (delta_of ss) x) as [w|] eqn:E.
    + f_equal. eapply agreesb_spec; [|done..].
      pose proof loadable_agrees as Hall. rewrite forallb_forall in Hall.
      apply Hall. by apply list_elem_of_In.
    + by eapply lookup_weaken.
Qed.

Lemma run_loadable sel : ∀ g : env,
  Forall (λ ss, ss ∈ loadable) sel → header_env ⊆ g →
  ∃ g', run sel g = Ok g' ∧ header_env ⊆ g'
        ∧ ∀ x, g' !! x = fold_left (pick_binding x) sel (g !! x).
Proof.
  induction sel as [|ss sel IH]; intros g Hall Hsub; simpl.
  - eauto.
  - apply Forall_cons in Hall as [Hin Hall].
    destruct (run_snippet_loadable ss g Hin Hsub) as [-> Hsub'].
    simpl. destruct (IH _ Hall Hsub') as (g' & -> & Hsub'' & Hg').
    exists g'. split_and!; [done..|].
    intros x. rewrite Hg', lookup_bound. f_equal.
    unfold pick_binding. by rewrite own_binding_delta.
Qed.

Lemma final_binding_loadable sel x :
  Forall (λ ss, ss ∈ loadable) sel →
  is_ok (run sel header_env) = true
  ∧ final_binding header_env sel x = last_binding sel x.
Proof.
  intros Hall.
  destruct (run_loadable sel header_env Hall) as (g & Hg & _ & Hx); [done|].
  unfold final_binding, last_binding. rewrite Hg. done.
Qed.

(** Outside the rebound names, all loadable snippets that bind a name bind it
    to one value. *)
Lemma own_binding_agree s1 s2 x v w :
  s1 ∈ loadable → s2 ∈ loadable → x ∉ rebound →
  own_binding s1 x = Some v → own_binding s2 x = Some w → v = w.
Proof.
  intros H1 H2 Hx. rewrite !own_binding_delta by done. intros Hv Hw.
  eapply (consistentb_spec _ _ x); [apply loadable_consistent| | |done].
  - apply list_elem_of_In, in_concat. exists (delta_of s1).
    split; apply list_elem_of_In; [by apply list_elem_of_fmap_2|by apply assoc_elem_of].
  - apply list_elem_of_In, in_concat. exists (delta_of s2).
    split; apply list_elem_of_In; [by apply list_elem_of_fmap_2|by apply assoc_elem_of].
Qed.

Lemma fold_binding_none x sel init :
  Forall (λ ss, own_binding ss x = None) sel →
  fold_left (pick_binding x) sel init = init.
Proof.
  intros Hall. revert init.
  induction Hall as [|ss sel Hs _ IH]; intros init; simpl; [done|].
  rewrite IH. unfold pick_binding. by rewrite Hs.
Qed.

Lemma fold_binding_some x sel init v :
  Forall (λ ss, ∀ w, own_binding ss x = Some w → w = v) sel →
  Exists (λ ss, is_Some (own_binding ss x)) sel →
  fold_left (pick_binding x) sel init = Some v.
Proof.
  intros Hall Hex. revert init.
  induction sel as [|ss sel IH]; intros init; [by apply Exists_nil in Hex|].
  apply Forall_cons in Hall as [Hs Hall]. simpl.
  destruct (decide (Exists (λ ss, is_Some (own_binding ss x)) sel)) as [Hex'|Hno].
  - by apply IH.
  - apply Exists_cons in Hex as [[w Hw]|Hex]; [|done].
    rewrite fold_binding_none.
    + unfold pick_binding. rewrite Hw. f_equal. by apply Hs.
    + apply not_Exists_Forall in Hno; [|apply _].
      eapply Forall_impl; [exact Hno|]. simpl. intros ss'.
      rewrite <-eq_None_not_Some. done.
Qed.

Lemma last_binding_perm sel1 sel2 x :
  Forall (λ ss, ss ∈ loadable) sel1 → sel1 ≡ₚ sel2 → x ∉ rebound →
  last_binding sel1 x = last_binding sel2 x.
Proof.
  intros Hall Hperm Hx.
  assert (Hall2 : Forall (λ ss, ss ∈ loadable) sel2) by by rewrite <-Hperm.
  unfold last_binding.
  destruct (decide (Exists (λ ss, is_Some (own_binding ss x)) sel1)) as [Hex|Hno].
  - assert (Hex2 : Exists (λ ss, is_Some (own_binding ss x)) sel2) by by rewrite <-Hperm.
    pose proof Hex as Hex'. apply Exists_exists in Hex' as (s0 & Hs0 & [v Hv]).
    rewrite Forall_forall in Hall. rewrite Forall_forall in Hall2.
    assert (Hv1 : Forall (λ ss, ∀ w, own_binding ss x = Some w → w = v) sel1).
    { apply Forall_forall. intros ss Hss w Hw.
      eapply (own_binding_agree ss s0); eauto. }
    assert (Hv2 : Forall (λ ss, ∀ w, own_binding ss x = Some w → w = v) sel2).
    { apply Forall_forall. intros ss Hss w Hw.
      eapply (own_binding_agree ss s0); eauto. }
    by rewrite !(fold_binding_some x _ _ v).
  - assert (Hno2 : ¬ Exists (λ ss, is_Some (own_binding ss x)) sel2) by by rewrite <-Hperm.
    apply not_Exists_Forall in Hno; [|apply _].
    apply not_Exists_Forall in Hno2; [|apply _].
    rewrite !fold_binding_none; [done|..].
    + eapply Forall_impl; [exact Hno2|]. simpl. intros ss'.
      by rewrite <-eq_None_not_Some.
    + eapply Forall_impl; [exact Hno|]. simpl. intros ss'.
      by rewrite <-eq_None_not_Some.
Qed.

Ltac in_loadable :=
  rewrite loadable_eq;
  repeat first [apply Forall_nil_2 | apply Forall_cons_2];
  apply list_elem_of_In; simpl; tauto.

Example product_after_managers_then_index :
  own_fields <$> final_binding header_env [model_managers; index_optimization] "Product"
  = Some ["name"; "price"; "description"].
Proof. vm_compute. reflexivity. Qed.

Example product_after_index_then_managers :
  own_fields <$> final_binding header_env [index_optimization; model_managers] "Product"
  = Some ["name"; "is_active"].
Proof. vm_compute. reflexivity. Qed.

(** C1, as stated: the snippets are independent, i.e. for any sub-collection
    of them and any two orders of evaluation every name ends with the same
    binding.  This fails: snippets 3 and 10 both declare [Product], and the
    one evaluated last decides what [Product] is. *)
Lemma snippets_not_order_independent : ¬ order_independent header_env snippets.
Proof.
  intros Hind.
  specialize (Hind [model_managers; index_optimization]
                   [index_optimization; model_managers] "Product").
  assert (Hsub : [model_managers; index_optimization] ⊆+ snippets).
  { apply sublist_submseteq. unfold snippets.
    do 2 apply sublist_cons. apply sublist_skip.
    do 6 apply sublist_cons. apply sublist_skip.
    apply sublist_nil_l. }
  specialize (Hind Hsub (Permutation_swap _ _ _)).
  vm_compute in Hind. discriminate Hind.
Qed.

(** C1, amended: take any selection of the ten snippets that evaluate on
    their own after the header, in any order.  Evaluation succeeds; every name
    ends bound to what the last selected snippet that binds it gives it (the
    header's binding when none does); and for every name other than
    [Product], [Employee] and [Migration] that final binding is the same for
    every order of the selection. *)
Theorem loadable_final_binding (sel1 sel2 : list (list stmt)) (x : string) :
  Forall (λ ss, ss ∈ loadable) sel1 → sel1 ≡ₚ sel2 →
  is_ok (run sel1 header_env) = true
  ∧ final_binding header_env sel1 x = last_binding sel1 x
  ∧ (x ∉ rebound →
     final_binding header_env sel1 x = final_binding header_env sel2 x).
Proof.
  intros Hall Hperm.
  assert (Hall2 : Forall (λ ss, ss ∈ loadable) sel2) by by rewrite <-Hperm.
  destruct (final_binding_loadable sel1 x Hall) as [Hok H1].
  destruct (final_binding_loadable sel2 x Hall2) as [_ H2].
  split_and!; [done..|].
  intros Hx. rewrite H1, H2. by apply last_binding_perm.
Qed.

Lemma loadable_final_binding_witness :
  is_ok (run [model_managers; index_optimization] header_env) = true
  ∧ final_binding header_env [model_managers; index_optimization] "ActiveProductManager"
    = last_binding [model_managers; index_optimization] "ActiveProductManager"
  ∧ final_binding header_env [model_managers; index_optimization] "ActiveProductManager"
    = final_binding header_env [index_optimization; model_managers] "ActiveProductManager".
Proof.
  destruct (loadable_final_binding [model_managers; index_optimization]
              [index_optimization; model_managers] "ActiveProductManager")
    as (Hok & Hlast & Hsame).
  - in_loadable.
  - apply Permutation_swap.
  - split_and!; [exact Hok|exact Hlast|].
    apply Hsame. unfold rebound. intros Hin.
    repeat (apply elem_of_cons in Hin as [Hin|Hin]; [discriminate Hin|]).
    by apply elem_of_nil in Hin.
Defined.

(** Which names are rebound: exactly the three in [rebound] get different
    values from different loadable snippets. *)
Lemma rebound_names_differ :
  own_binding model_managers "Product" ≠ own_binding index_optimization "Product"
  ∧ own_binding proxy_models "Employee" ≠ own_binding multi_table_inheritance "Employee"
  ∧ own_binding runpython_migration "Migration" ≠ own_binding data_migration "Migration".
Proof. split_and!; intros H; vm_compute in H; discriminate H. Qed.

(** The dependency-management snippet reads [migrations], which the header
    does not import: it evaluates only after a snippet that imports it. *)
Lemma dependency_management_needs_import :
  run [dependency_management] header_env = Err (NameError "migrations")
  ∧ is_ok (run [runpython_migration; dependency_management] header_env) = true
  ∧ run [dependency_management; runpython_migration] header_env
    = Err (NameError "migrations").
Proof. split_and!; vm_compute; reflexivity. Qed.

(** The snippets that are not Python at all. *)
Lemma unparsable_snippets :
  filter (λ ss, parses_all ss = false) snippets
  = [squashing; reversible_runpython; custom_operation; merge_conflicts].
Proof. vm_compute. reflexivity. Qed.

(** C2: evaluating the query-expressions snippet raises an undefined-name
    error for [Book], after the header and also with every import statement
    of the module in effect. *)
Theorem query_expressions_name_error :
  run_snippet query_expressions header_env = Err (NameError "Book")
  ∧ run_snippet query_expressions imports_env = Err (NameError "Book").
Proof. split; vm_compute; reflexivity. Qed.

(** With every import of the module in effect, [Book] is the only name that
    is undefined when a snippet is evaluated on its own. *)
Lemma snippet_errors :
  error_of <$> snippets
  = [ None; None; None; None; Some (NameError "Book"); None; None; None; None; None;
      Some SyntaxError; None; Some SyntaxError; Some SyntaxError; None;
      Some SyntaxError ].
Proof. vm_compute. reflexivity. Qed.

Lemma only_book_is_undefined ss x :
  ss ∈ snippets → run_snippet ss imports_env = Err (NameError x) →
  ss = query_expressions ∧ x = "Book".
Proof.
  intros [i Hi]%list_elem_of_lookup Herr.
  assert (He : error_of ss = Some (NameError x)) by (unfold error_of; by rewrite Herr).
  pose proof (f_equal (λ l, l !! i) snippet_errors) as Hl. cbv beta in Hl.
  rewrite list_lookup_fmap, Hi in Hl. cbn [fmap option_fmap option_map] in Hl.
  rewrite He in Hl.
  unfold snippets in Hi.
  do 16 (try (destruct i as [|i]; [simpl in Hl; simpl in Hi; try discriminate Hl|])).
  - injection Hl as ->. injection Hi as <-. done.
  - discriminate Hl.
Qed.

(** C10: whatever loadable snippets were evaluated before it, and in
    whatever order, the statement of the query-expressions snippet raises
    [NameError] for [Book]: the failure comes from the snippet's own name
    lookup, before any framework code is reached. *)
Theorem query_expressions_raises (sel : list (list stmt)) :
  Forall (λ ss, ss ∈ loadable) sel →
  ∃ g, run sel header_env = Ok g
       ∧ run_snippet query_expressions g = Err (NameError "Book").
Proof.
  intros Hall.
  destruct (run_loadable sel header_env Hall) as (g & Hg & _ & Hx); [done|].
  exists g. split; [done|].
  assert (Hbook : g !! "Book" = None).
  { rewrite Hx. rewrite fold_binding_none; [by vm_compute|].
    eapply Forall_impl; [exact Hall|]. simpl. intros ss Hss.
    rewrite loadable_eq in Hss. apply list_elem_of_In in Hss. simpl in Hss.
    repeat (destruct Hss as [<-|Hss]; [by vm_compute|]). done. }
  unfold run_snippet, run_delta. simpl. unfold lookup_name. simpl.
  by rewrite Hbook.
Qed.

Lemma query_expressions_raises_witness :
  ∃ g, run [model_mixins; model_signals; model_managers; conditional_expressions]
           header_env = Ok g
       ∧ run_snippet query_expressions g = Err (NameError "Book").
Proof.
  apply (query_expressions_raises
           [model_mixins; model_signals; model_managers; conditional_expressions]).
  in_loadable.
Defined.

(** ** Tables *)

Lemma next_pk_above {A} (t : table A) k : is_Some (t !! k) → (k < next_pk t)%Z.
Proof.
  unfold next_pk. revert k.
  apply (map_fold_weak_ind (λ r m, ∀ k, is_Some (m !! k) → (k < r)%Z)).
  - intros k [? Hk]. by rewrite lookup_empty in Hk.
  - intros i x m r Hi IH k Hk. destruct (decide (k = i)) as [->|Hne].
    + lia.
    + rewrite lookup_insert_ne in Hk by done. specialize (IH k Hk). lia.
Qed.

Lemma next_pk_fresh {A} (t : table A) : t !! next_pk t = None.
Proof.
  apply eq_None_not_Some. intros Hk. apply next_pk_above in Hk. lia.
Qed.

(** *** 6. [do_something] *)

Lemma fold_save_lookup {A} (f : A → A) (l : list (Z * A)) : ∀ (t : table A) k,
  NoDup l.*1 →
  fold_left (λ t kp, save kp.1 (f kp.2) t) l t !! k =
  match (list_to_map l : table A) !! k with
  | Some r => Some (f r)
  | None => t !! k
  end.
Proof.
  induction l as [|[k1 r1] l IH]; intros t k Hnd; simpl; [done|].
  apply NoDup_cons in Hnd as [Hk1 Hnd]. rewrite IH by done. unfold save. simpl.
  destruct (decide (k = k1)) as [->|Hne].
  - rewrite (not_elem_of_list_to_map_1 l k1 Hk1). by rewrite !lookup_insert_eq.
  - by rewrite !lookup_insert_ne.
Qed.

(** C6: after [do_something] the table has the same keys; the row under each
    key has the upper-cased name of the row that was there and the same other
    columns. *)
Theorem do_something_lookup {Rest} (upper : string → string)
    (products : table (row Rest)) (pk : Z) :
  do_something upper products !! pk
  = (λ r, Row (upper (name r)) (rest r)) <$> products !! pk.
Proof.
  unfold do_something.
  rewrite (fold_save_lookup (renamed upper)) by apply NoDup_fst_map_to_list.
  rewrite list_to_map_to_list. by destruct (products !! pk).
Qed.

Lemma do_something_fmap {Rest} (upper : string → string) (products : table (row Rest)) :
  do_something upper products = renamed upper <$> products.
Proof.
  apply map_eq. intros pk. unfold do_something.
  rewrite (fold_save_lookup (renamed upper)) by apply NoDup_fst_map_to_list.
  rewrite list_to_map_to_list, lookup_fmap. by destruct (products !! pk).
Qed.

(** C9: when upper-casing an upper-cased string changes nothing, running
    [do_something] a second time changes nothing. *)
Theorem do_something_idempotent {Rest} (upper : string → string)
    (products : table (row Rest)) :
  (∀ s, upper (upper s) = upper s) →
  do_something upper (do_something upper products) = do_something upper products.
Proof.
  intros Hidem. rewrite !do_something_fmap, <-map_fmap_compose.
  apply map_fmap_ext. intros pk [n r] _. unfold renamed. simpl. by rewrite Hidem.
Qed.

(** Without that assumption, the second run upper-cases each name once
    more. *)
Lemma do_something_twice_lookup {Rest} (upper : string → string)
    (products : table (row Rest)) (pk : Z) :
  do_something upper (do_something upper products) !! pk
  = (λ r, Row (upper (upper (name r))) (rest r)) <$> products !! pk.
Proof.
  rewrite !do_something_fmap, !lookup_fmap. by destruct (products !! pk).
Qed.

Lemma upper_ascii_idem c : upper_ascii (upper_ascii c) = upper_ascii c.
Proof. by destruct c as [[] [] [] [] [] [] [] []]. Qed.

Lemma upper_bytes_idem s : upper_bytes (upper_bytes s) = upper_bytes s.
Proof. induction s as [|c s IH]; simpl; [done|]. by rewrite upper_ascii_idem, IH. Qed.

Lemma do_something_idempotent_witness :
  do_something upper_bytes
    (do_something upper_bytes (<[1%Z := Row "mug" true]> (<[2%Z := Row "Tea pot" false]> ∅)))
  = do_something upper_bytes (<[1%Z := Row "mug" true]> (<[2%Z := Row "Tea pot" false]> ∅)).
Proof.
  apply (do_something_idempotent upper_bytes
           (<[1%Z := Row "mug" true]> (<[2%Z := Row "Tea pot" false]> ∅))).
  exact upper_bytes_idem.
Defined.

Example do_something_two_products :
  map_to_list (do_something upper_bytes
                 (<[1%Z := Row "mug" true]> (<[2%Z := Row "Tea pot" false]> ∅)))
  = [(2%Z, Row "TEA POT" false); (1%Z, Row "MUG" true)].
Proof. vm_compute. reflexivity. Qed.

(** *** Data migrations: [copy_data] *)

Lemma NewModel_create_lookup {RO RN} (defaults : RN) n (db : tables RO RN) :
  old_models (NewModel_create defaults n db) = old_models db
  ∧ new_models db ⊆ new_models (NewModel_create defaults n db)
  ∧ new_models (NewModel_create defaults n db) !! next_pk (new_models db)
    = Some (Row n defaults)
  ∧ size (new_models (NewModel_create defaults n db)) = S (size (new_models db)).
Proof.
  unfold NewModel_create. simpl. split_and!.
  - done.
  - apply insert_subseteq, next_pk_fresh.
  - apply lookup_insert_eq.
  - apply map_size_insert_None, next_pk_fresh.
Qed.

(** One [create] per element of the list that is iterated: the rows created
    sit under keys that were free, one key per element. *)
Lemma create_each {RO RN} (defaults : RN) (l : list (Z * row RO)) :
  ∀ db : tables RO RN,
    let db' := fold_left (λ db' ko, NewModel_create defaults (name ko.2) db') l db in
    old_models db' = old_models db
    ∧ new_models db ⊆ new_models db'
    ∧ size (new_models db') = size (new_models db) + length l
    ∧ ∃ pks, NoDup pks
        ∧ Forall2 (λ pk ko, new_models db' !! pk = Some (Row (name ko.2) defaults)
                            ∧ new_models db !! pk = None) pks l.
Proof.
  induction l as [|[k o] l IH]; intros db; simpl.
  - split_and!; [done|done|lia|]. exists []. split; constructor.
  - destruct (NewModel_create_lookup defaults (name o) db) as (Hold & Hsub & Hnew & Hsize).
    destruct (IH (NewModel_create defaults (name o) db)) as (Hold' & Hsub' & Hsize' & pks & Hnd & Hall).
    split_and!.
    + by rewrite Hold'.
    + by trans (new_models (NewModel_create defaults (name o) db)).
    + rewrite Hsize', Hsize. lia.
    + exists (next_pk (new_models db) :: pks). split.
      * apply NoDup_cons. split; [|done].
        intros Hin. apply list_elem_of_lookup in Hin as [i Hi].
        destruct (Forall2_lookup_l _ _ _ _ _ Hall Hi) as (ko & _ & _ & Hfree).
        by rewrite Hnew in Hfree.
      * constructor.
        -- split; [|apply next_pk_fresh].
           by apply (lookup_weaken _ _ _ _ Hnew).
        -- eapply Forall2_impl; [exact Hall|]. simpl.
           intros pk ko [H1 H2]. split; [done|].
           by apply (lookup_weaken_None _ _ _ H2).
Qed.

(** C7: [copy_data] leaves the old table as it was and keeps every row the new
    table had; it adds as many rows as the old table has, and for every old
    row there is a new row of its own, under a key that was free, carrying
    that row's name. *)
Theorem copy_data_spec {RO RN} (defaults : RN) (db : tables RO RN) :
  old_models (copy_data defaults db) = old_models db
  ∧ new_models db ⊆ new_models (copy_data defaults db)
  ∧ size (new_models (copy_data defaults db))
    = size (new_models db) + size (old_models db)
  ∧ ∃ pks, NoDup pks
      ∧ Forall2 (λ pk ko,
                   new_models (copy_data defaults db) !! pk
                   = Some (Row (name ko.2) defaults)
                   ∧ new_models db !! pk = None)
                pks (map_to_list (old_models db)).
Proof.
  unfold copy_data.
  destruct (create_each defaults (map_to_list (old_models db)) db)
    as (Hold & Hsub & Hsize & Hpks).
  split_and!; [done|done| |done].
  by rewrite Hsize, length_map_to_list.
Qed.

Example copy_data_two_rows :
  map_to_list (new_models (copy_data 0%Z
     (Tables (<[7%Z := Row "a" tt]> (<[9%Z := Row "b" tt]> ∅))
             (<[1%Z := Row "kept" 5%Z]> ∅))))
  = [(3%Z, Row "b" 0%Z); (2%Z, Row "a" 0%Z); (1%Z, Row "kept" 5%Z)].
Proof. vm_compute. reflexivity. Qed.

(** *** 2. The [post_save] receiver *)

(** Saving with no receiver connected touches the saved row only. *)
Lemma save_without_receivers {U} : save_touches_only_saved_row ([] : list (receiver_fn U)).
Proof.
  intros st st' instance. unfold User_save. simpl. intros [= <-]. simpl.
  split; [done|]. intros k Hk. by rewrite lookup_insert_ne.
Qed.

Example first_save_creates_profile :
  (λ st, (map_to_list (users st), map_to_list (profiles st)))
    <$> (match User_save [create_user_profile] (1%Z, tt) (State ∅ ∅) with
         | Ok st => Some st
         | Err _ => None
         end)
  = Some ([(1%Z, tt)], [(1%Z, Profile 1 "")]).
Proof. vm_compute. reflexivity. Qed.

(** C3, as stated: a save of a [User] changes nothing outside the saved row
    through code of this module.  This fails: with the module's receiver
    connected, the first save of a user also inserts a profile row. *)
Lemma receiver_changes_profiles :
  ¬ save_touches_only_saved_row ([create_user_profile] : list (receiver_fn ())).
Proof.
  intros Hclaim.
  destruct (Hclaim (State ∅ ∅)
              (State {[1%Z := ()]} {[1%Z := Profile 1 ""]}) (1%Z, ())) as [Hprof _].
  - vm_compute. reflexivity.
  - simpl in Hprof. apply (f_equal (λ m, m !! 1%Z)) in Hprof.
    vm_compute in Hprof. discriminate Hprof.
Qed.

Lemma no_profile_for_new_user {U} (st : state U) (pk : Z) :
  fk_ok st → users st !! pk = None →
  ¬ map_Exists (λ _ p, user_id p = pk) (profiles st).
Proof.
  intros Hfk Hnew (k & p & Hp & Hid). specialize (Hfk k p Hp). simpl in Hfk.
  rewrite Hid, Hnew in Hfk. by destruct Hfk.
Qed.

(** C3, amended: the receiver does nothing when the saved user was already
    stored; on the save that creates a user (in a state where every profile
    points at a stored user) it inserts exactly one profile row, under a free
    key, pointing at that user with an empty [bio], and changes nothing else:
    the users are as the save alone leaves them. *)
Theorem create_user_profile_on_save {U} (st : state U) (instance : Z * U) :
  fk_ok st →
  create_user_profile instance false st = Ok st
  ∧ match users st !! instance.1 with
    | Some _ =>
        User_save [create_user_profile] instance st = User_save [] instance st
    | None =>
        User_save [create_user_profile] instance st
        = Ok (State (<[instance.1 := instance.2]> (users st))
                    (<[next_pk (profiles st) := Profile instance.1 ""]> (profiles st)))
        ∧ profiles st !! next_pk (profiles st) = None
    end.
Proof.
  intros Hfk. split; [done|].
  destruct (users st !! instance.1) as [u|] eqn:Hu.
  - unfold User_save. rewrite Hu. by rewrite bool_decide_eq_false_2.
  - split; [|apply next_pk_fresh].
    unfold User_save. rewrite Hu. rewrite bool_decide_eq_true_2 by done.
    simpl. unfold UserProfile_create. simpl.
    destruct (decide _) as [Hex|_]; [|done].
    by apply no_profile_for_new_user in Hex.
Qed.

Lemma create_user_profile_on_save_witness :
  create_user_profile (1%Z, ()) false (State ∅ ∅) = Ok (State ∅ ∅)
  ∧ User_save [create_user_profile] (1%Z, ()) (State ∅ ∅)
    = Ok (State (<[1%Z := ()]> ∅) (<[1%Z := Profile 1 ""]> ∅))
  ∧ (∅ : table profile) !! 1%Z = None.
Proof.
  destruct (create_user_profile_on_save (State ∅ ∅) (1%Z, ())) as [Hidle Hsave].
  - unfold fk_ok. simpl. apply map_Forall_empty.
  - split; [exact Hidle|exact Hsave].
Defined.

(** The invariant assumed above is kept by a save. *)
Lemma User_save_keeps_fk_ok {U} (st st' : state U) (instance : Z * U) :
  fk_ok st → User_save [create_user_profile] instance st = Ok st' → fk_ok st'.
Proof.
  intros Hfk. unfold User_save. simpl.
  set (st1 := State (<[instance.1 := instance.2]> (users st)) (profiles st)).
  assert (Hfk1 : fk_ok st1).
  { intros k p Hp. simpl. specialize (Hfk k p Hp). simpl in Hfk.
    destruct (decide (user_id p = instance.1)) as [->|Hne].
    - rewrite lookup_insert_eq. eauto.
    - by rewrite lookup_insert_ne. }
  unfold create_user_profile. destruct (bool_decide _); simpl.
  - unfold UserProfile_create. destruct (decide _); simpl; [done|].
    intros [= <-]. unfold fk_ok. simpl.
    apply map_Forall_insert_2; [|exact Hfk1].
    simpl. rewrite lookup_insert_eq. eauto.
  - by intros [= <-].
Qed.

(** *** 7. The proxy manager *)

(** On a model that has a field [is_employee] the query holds exactly the
    rows whose [is_employee] is true. *)
Lemma get_queryset_with_field {R} (field : string → option (R → fieldval))
    (get : R → fieldval) (user_rows : table R) :
  field "is_employee" = Some get →
  ∃ qs, get_queryset field user_rows = Ok qs
        ∧ ∀ pk r, qs !! pk = Some r ↔ user_rows !! pk = Some r ∧ get r = FBool true.
Proof.
  intros Hfield. unfold get_queryset, filter_eq. rewrite Hfield.
  eexists. split; [done|]. intros pk r. by rewrite map_lookup_filter_Some.
Qed.

(** On a model without such a field the filter is refused. *)
Lemma get_queryset_without_field {R} (field : string → option (R → fieldval))
    (user_rows : table R) :
  field "is_employee" = None →
  get_queryset field user_rows = Err (FieldError "is_employee").
Proof. intros Hfield. unfold get_queryset, filter_eq. by rewrite Hfield. Qed.

Example auth_user_has_no_is_employee :
  auth_user_field "is_employee" = None
  ∧ is_Some (auth_user_field "is_staff").
Proof. split; [by vm_compute|vm_compute; eauto]. Qed.

(** C5: the proxy [Employee] has [proxy = True], [User] as its only base and
    no stored field of its own; but [User] has no column [is_employee], so in
    every state of the user table [get_queryset] raises [FieldError] instead
    of returning rows. *)
Theorem employee_queryset_field_error (user_rows : table auth_user) :
  is_proxy <$> class_of proxy_models "Employee" = Some true
  ∧ bases_of <$> class_of proxy_models "Employee"
    = Some [VImport "django.contrib.auth.models" "User"]
  ∧ own_fields <$> class_of proxy_models "Employee" = Some []
  ∧ get_queryset auth_user_field user_rows = Err (FieldError "is_employee").
Proof.
  split_and!; [by vm_compute..|].
  apply get_queryset_without_field. by vm_compute.
Qed.

(** *** 1 and 9. Abstract bases *)

(** C8: [TimestampMixin] and [BaseModel] are abstract and have no table;
    [Author] and [Customer] have one, and their instances carry [created_at]
    and [updated_at] from the base followed by their own field [name]. *)
Theorem abstract_bases_contribute_fields :
  has_table <$> class_of model_mixins "TimestampMixin" = Some false
  ∧ has_table <$> class_of abstract_base_classes "BaseModel" = Some false
  ∧ has_table <$> class_of model_mixins "Author" = Some true
  ∧ has_table <$> class_of abstract_base_classes "Customer" = Some true
  ∧ own_fields <$> class_of model_mixins "Author" = Some ["name"]
  ∧ own_fields <$> class_of abstract_base_classes "Customer" = Some ["name"]
  ∧ instance_fields <$> class_of model_mixins "Author"
    = Some ["created_at"; "updated_at"; "name"]
  ∧ instance_fields <$> class_of abstract_base_classes "Customer"
    = Some ["created_at"; "updated_at"; "name"].
Proof. split_and!; vm_compute; reflexivity. Qed.

(** The second [Employee] (snippet 8) is a different model: not a proxy, with
    a table and a stored field of its own. *)
Lemma employee_multi_table :
  is_proxy <$> class_of multi_table_inheritance "Employee" = Some false
  ∧ has_table <$> class_of multi_table_inheritance "Employee" = Some true
  ∧ instance_fields <$> class_of multi_table_inheritance "Employee"
    = Some ["first_name"; "last_name"; "employee_id"].
Proof. split_and!; vm_compute; reflexivity. Qed.

(** *** Reversible RunPython operations *)

(** The snippet gives [do_something] and [undo_something] a comment where a
    body should be: it is rejected before anything runs, in any globals, so
    the module fixes no forward and no reverse transformation. *)
Lemma reversible_runpython_rejected (g : env) :
  run_snippet reversible_runpython g = Err SyntaxError.
Proof. reflexivity. Qed.

(** * Further properties *)

(** ** 3. [ActiveProductManager.active] *)

Lemma active_filter (products : table (row bool)) :
  active products = Ok (filter (λ kr, rest kr.2 = true) products).
Proof.
  unfold active, filter_eq, product_field. simpl. f_equal.
  apply map_filter_ext. intros pk r _. simpl. split; [by intros [= ->]|by intros ->].
Qed.

(** X1: [active] never fails on the declared [Product], and holds exactly the
    rows whose [is_active] is true. *)
Theorem active_spec (products : table (row bool)) :
  ∃ qs, active products = Ok qs
        ∧ ∀ pk r, qs !! pk = Some r ↔ products !! pk = Some r ∧ rest r = true.
Proof.
  rewrite active_filter. eexists. split; [done|].
  intros pk r. by rewrite map_lookup_filter_Some.
Qed.

(** The declared columns are the ones the class statement of snippet 3
    evaluates to. *)
Lemma product_field_declared (f : string) :
  is_Some (product_field f)
  ↔ f ∈ default [] (own_fields <$> class_of model_managers "Product").
Proof.
  assert (Hf : default [] (own_fields <$> class_of model_managers "Product")
               = ["name"; "is_active"]) by by vm_compute.
  rewrite Hf. unfold product_field.
  destruct (decide (f = "name")) as [->|Hn].
  { split; [intros _; apply list_elem_of_here|eauto]. }
  destruct (decide (f = "is_active")) as [->|Ha].
  { split; [intros _; apply list_elem_of_further, list_elem_of_here|eauto]. }
  split; [by intros [? [=]]|]. intros Hin.
  apply elem_of_cons in Hin as [->|Hin]; [done|].
  apply elem_of_cons in Hin as [->|Hin]; [done|].
  by apply elem_of_nil in Hin.
Qed.

(** X2: upper-casing the names does not change which products are active: the
    data migration and the manager's query commute. *)
Theorem active_do_something (upper : string → string) (products : table (row bool)) :
  active (do_something upper products)
  = match active products with
    | Ok qs => Ok (do_something upper qs)
    | Err e => Err e
    end.
Proof.
  rewrite !active_filter, !do_something_fmap. f_equal.
  apply map_eq. intros pk. rewrite lookup_fmap.
  apply option_eq. intros r.
  rewrite map_lookup_filter_Some, lookup_fmap, !fmap_Some. simpl.
  setoid_rewrite map_lookup_filter_Some. simpl. split.
  - intros [(r0 & Hr0 & ->) Hact]. exists r0. done.
  - intros (r0 & [Hr0 Hact] & ->). split; [eauto|done].
Qed.

(** Filtering the active products again changes nothing. *)
Theorem active_idempotent (products qs : table (row bool)) :
  active products = Ok qs → active qs = Ok qs.
Proof.
  rewrite !active_filter. intros [= <-]. f_equal.
  apply map_filter_filter_l. done.
Qed.

Lemma active_idempotent_witness :
  active (filter (λ kr, rest kr.2 = true)
            (<[1%Z := Row "mug" true]> (<[2%Z := Row "pot" false]> ∅)))
  = Ok (filter (λ kr, rest kr.2 = true)
          (<[1%Z := Row "mug" true]> (<[2%Z := Row "pot" false]> ∅))).
Proof.
  apply (active_idempotent (<[1%Z := Row "mug" true]> (<[2%Z := Row "pot" false]> ∅))).
  apply active_filter.
Defined.

(** ** 6. [do_something], continued *)

(** X4: upper-casing forgets the case of the names: as soon as two different
    names have the same upper-case form, no function can undo
    [do_something] on every table. *)
Theorem do_something_no_inverse {Rest} (upper : string → string)
    (s1 s2 : string) (r : Rest) :
  s1 ≠ s2 → upper s1 = upper s2 →
  ¬ ∃ undo : table (row Rest) → table (row Rest),
      ∀ products, undo (do_something upper products) = products.
Proof.
  intros Hne Heq [undo Hundo].
  pose proof (Hundo {[1%Z := Row s1 r]}) as H1.
  pose proof (Hundo {[1%Z := Row s2 r]}) as H2.
  rewrite do_something_fmap, map_fmap_singleton in H1, H2.
  unfold renamed in H1, H2. simpl in H1, H2. rewrite Heq in H1.
  rewrite H1 in H2. apply (f_equal (λ m, m !! 1%Z)) in H2.
  rewrite !lookup_singleton_eq in H2. by injection H2.
Qed.

Lemma do_something_no_inverse_witness :
  ¬ ∃ undo : table (row ()) → table (row ()),
      ∀ products, undo (do_something upper_bytes products) = products.
Proof.
  apply (do_something_no_inverse upper_bytes "mug" "Mug" ()).
  - discriminate.
  - reflexivity.
Defined.

(** ** Data migrations: [copy_data], continued *)

Lemma create_each_rows {RO RN} (defaults : RN) (l : list (Z * row RO)) :
  ∀ db : tables RO RN,
    (map_to_list (new_models
       (fold_left (λ db' ko, NewModel_create defaults (name ko.2) db') l db))).*2
    ≡ₚ ((λ ko, Row (name ko.2) defaults) <$> l) ++ (map_to_list (new_models db)).*2.
Proof.
  induction l as [|[k o] l IH]; intros db; simpl; [done|].
  rewrite IH. unfold NewModel_create. simpl.
  rewrite map_to_list_insert by apply next_pk_fresh. simpl.
  by rewrite <-Permutation_middle.
Qed.

(** X5: the rows of the new table after [copy_data] are, as a multiset, the rows
    it had before together with one row per old row: that row's name and the
    default other columns.  Nothing else is added and nothing is lost. *)
Theorem copy_data_rows {RO RN} (defaults : RN) (db : tables RO RN) :
  (map_to_list (new_models (copy_data defaults db))).*2
  ≡ₚ ((λ ko, Row (name ko.2) defaults) <$> map_to_list (old_models db))
     ++ (map_to_list (new_models db)).*2.
Proof. apply create_each_rows. Qed.

(** X6: running [copy_data] again copies every old row once more: it is not
    idempotent, each run adds as many rows as the old table has. *)
Theorem copy_data_twice {RO RN} (defaults : RN) (db : tables RO RN) :
  size (new_models (copy_data defaults (copy_data defaults db)))
  = size (new_models db) + 2 * size (old_models db).
Proof.
  unfold copy_data.
  destruct (create_each defaults (map_to_list (old_models db)) db)
    as (Hold & _ & Hsize & _).
  set (db1 := fold_left _ (map_to_list (old_models db)) db) in *.
  destruct (create_each defaults (map_to_list (old_models db1)) db1)
    as (_ & _ & Hsize' & _).
  rewrite Hsize', Hsize, Hold, !length_map_to_list. lia.
Qed.

(** X7: [copy_data] leaves the database as it is exactly when the old table is
    empty. *)
Theorem copy_data_fixed_point {RO RN} (defaults : RN) (db : tables RO RN) :
  copy_data defaults db = db ↔ old_models db = ∅.
Proof.
  split.
  - intros Hfix.
    destruct (create_each defaults (map_to_list (old_models db)) db)
      as (_ & _ & Hsize & _).
    fold (copy_data defaults db) in Hsize. rewrite Hfix, length_map_to_list in Hsize.
    apply map_size_empty_iff. lia.
  - intros Hempty. unfold copy_data. by rewrite Hempty, map_to_list_empty.
Qed.

(** ** 2. The [post_save] receiver, continued *)

Lemma UserProfile_create_Ok {U} (pk : Z) (st st' : state U) :
  UserProfile_create pk st = Ok st'
  ↔ ¬ map_Exists (λ _ p, user_id p = pk) (profiles st)
    ∧ st' = State (users st) (<[next_pk (profiles st) := Profile pk ""]> (profiles st)).
Proof.
  unfold UserProfile_create. destruct (decide _) as [Hex|Hno]; split.
  - done.
  - by intros [? _].
  - by intros [= <-].
  - by intros [_ ->].
Qed.

(** X8: the receiver refuses to give a user a second profile: once it has
    created one, running it again for the same user raises
    [IntegrityError]. *)
Theorem create_user_profile_twice {U} (instance : Z * U) (st st' : state U) :
  create_user_profile instance true st = Ok st' →
  create_user_profile instance true st' = Err IntegrityError.
Proof.
  simpl. intros [_ ->]%UserProfile_create_Ok.
  unfold UserProfile_create. simpl. destruct (decide _) as [_|Hno]; [done|].
  destruct Hno. eapply map_Exists_lookup_2; [apply lookup_insert_eq|done].
Qed.

Lemma create_user_profile_twice_witness :
  create_user_profile (1%Z, ()) true (State ∅ {[1%Z := Profile 1 ""]})
  = Err IntegrityError.
Proof.
  apply (create_user_profile_twice (1%Z, ()) (State ∅ ∅)).
  reflexivity.
Defined.








(** ** The module as a whole *)

Lemma run_unparsable sel : ∀ g : env,
  Exists (λ ss, parses_all ss = false) sel → is_ok (run sel g) = false.
Proof.
  induction sel as [|ss sel IH]; intros g Hex; [by apply Exists_nil in Hex|].
  simpl. unfold run_snippet, run_delta.
  destruct (parses_all ss) eqn:Hp; [|done].
  apply Exists_cons in Hex as [Hss|Hex]; [congruence|].
  destruct (exec_list true g [] ss); simpl; [by apply IH|done].
Qed.

(** X12: the file cannot be loaded in any order: whatever the order of its sixteen
    snippets and whatever is already bound, evaluation ends in an error. *)
Theorem module_never_loads (sel : list (list stmt)) (g : env) :
  sel ≡ₚ snippets → is_ok (run sel g) = false.
Proof.
  intros Hperm. apply run_unparsable. rewrite Hperm.
  apply Exists_exists. exists squashing. split; [|done].
  unfold snippets. do 10 apply list_elem_of_further. apply list_elem_of_here.
Qed.

Lemma module_never_loads_witness : is_ok (run snippets header_env) = false.
Proof. apply (module_never_loads snippets header_env). reflexivity. Defined.







(** X15: whatever loadable snippets were evaluated before, in whatever order, the
    header's imports are still bound to what the header imported, and a
    loadable snippet binds what it binds on its own: its meaning does not
    depend on the snippets evaluated earlier. *)
Theorem loadable_snippets_independent (sel : list (list stmt)) (ss : list stmt) :
  Forall (λ ss, ss ∈ loadable) sel → ss ∈ loadable →
  ∃ g, run sel header_env = Ok g
       ∧ header_env ⊆ g
       ∧ run_delta ss g = run_delta ss header_env.
Proof.
  intros Hall Hss.
  destruct (run_loadable sel header_env Hall) as (g & Hg & Hsub & _); [done|].
  exists g. split_and!; [done..|].
  rewrite (loadable_run _ Hss).
  apply (run_delta_mono header_env g); [done|by apply loadable_run].
Qed.

Lemma loadable_snippets_independent_witness :
  ∃ g, run [index_optimization; proxy_models] header_env = Ok g
       ∧ header_env ⊆ g
       ∧ run_delta model_managers g = run_delta model_managers header_env.
Proof.
  apply (loadable_snippets_independent [index_optimization; proxy_models] model_managers).
  - in_loadable.
  - rewrite loadable_eq. apply list_elem_of_In. simpl. tauto.
Defined.
